(** * Friendship requests: send, accept, decline

    A shallow embedding of [src/server/api/routers/friendship-request-router.ts]
    and the properties of its three procedures.

    The router talks to a relational store through a query builder.  A table
    is a list of rows, a query is a function of the database, and an [async]
    handler is a [Task]: a function of the connection that gives back the
    connection and either a value or the error that rejected the promise. *)

From Stdlib Require Import ZArith List Bool Lia.
Import ListNotations.
Local Open Scope Z_scope.

(** ** Data model *)

(** [FriendshipStatusSchema.Values]: the three values of the status column. *)
Inductive FriendshipStatus : Type :=
| requested
| accepted
| declined.

Definition status_eqb (s t : FriendshipStatus) : bool :=
  match s, t with
  | requested, requested | accepted, accepted | declined, declined => true
  | _, _ => false
  end.

(** A row of the [friendships] table: the directed edge
    [(userId, friendUserId)] with its status.  [id] is the generated column
    the guard selects ([friendships.id]); no procedure sets it. *)
Record Friendship : Type := mkFriendship {
  id : Z;
  userId : Z;
  friendUserId : Z;
  status : FriendshipStatus
}.

(** The two tables the router reads and writes.  Of a [users] row only the
    [id] column is ever read, so the table is the list of its ids. *)
Record Database : Type := mkDatabase {
  users : list Z;
  friendships : list Friendship
}.

(** What the data-access layer can reject a statement with. *)
Inductive DbFailure : Type :=
| UniqueViolation   (* the row's (userId, friendUserId) is already taken *)
| Unavailable.      (* the statement did not run at all *)

(** What a procedure call can be rejected with: the two [TRPCError] codes the
    middlewares raise, or a failure of the data-access layer, passed on as
    it is. *)
Inductive Error : Type :=
| BAD_REQUEST
| UNAUTHORIZED
| DATA_ACCESS (f : DbFailure).

Inductive Result (A : Type) : Type :=
| Ok (a : A)
| Err (e : Error).
Arguments Ok {A} a.
Arguments Err {A} e.

(** ** The connection and the task monad *)

(** A connection is the database together with the failures the data-access
    layer is going to have: the n-th statement sent over the connection does
    not run when the n-th entry of [faults] is [true].  The empty list is a
    connection on which every statement runs. *)
Record Connection : Type := mkConnection {
  db : Database;
  faults : list bool
}.

Definition Task (A : Type) : Type := Connection -> Connection * Result A.

Definition ret {A} (a : A) : Task A := fun c => (c, Ok a).

Definition throw {A} (e : Error) : Task A := fun c => (c, Err e).

Definition bind {A B} (m : Task A) (k : A -> Task B) : Task B :=
  fun c =>
    match m c with
    | (c', Ok a) => k a c'
    | (c', Err e) => (c', Err e)
    end.

Notation "x <- m ;; k" := (bind m (fun x => k))
  (at level 61, m at next level, right associativity).

(** [.execute()]: one statement sent over the connection.  A statement that
    is rejected, by a fault or by the table's key, changes nothing. *)
Definition execute {A} (q : Database -> Result (A * Database)) : Task A :=
  fun c =>
    match faults c with
    | true :: rest =>
        ({| db := db c; faults := rest |}, Err (DATA_ACCESS Unavailable))
    | _ =>
        match q (db c) with
        | Ok (a, d) => ({| db := d; faults := tl (faults c) |}, Ok a)
        | Err e => ({| db := db c; faults := tl (faults c) |}, Err e)
        end
    end.

(** [.executeTakeFirst()]: the first selected row, or [undefined]. *)
Definition executeTakeFirst {A} (q : Database -> option A) : Task (option A) :=
  execute (fun d => Ok (q d, d)).

(** [.executeTakeFirstOrThrow(() => error)]: the first selected row, or the
    given error when there is none. *)
Definition executeTakeFirstOrThrow {A} (q : Database -> option A) (e : Error)
  : Task A :=
  r <- executeTakeFirst q ;;
  match r with
  | Some a => ret a
  | None => throw e
  end.

(** [db.transaction().execute(body)]: the body's statements are committed
    together when the body returns and rolled back when it throws, so the
    tables are then as they were when the transaction began. *)
Definition transaction {A} (body : Task A) : Task A :=
  fun c =>
    match body c with
    | (c', Ok a) => (c', Ok a)
    | (c', Err e) => ({| db := db c; faults := faults c' |}, Err e)
    end.

(** ** Queries on the two tables *)

(** [selectFrom('users').where('users.id', '=', i).select('id').limit(1)] *)
Definition selectUserId (i : Z) (d : Database) : option Z :=
  find (fun u => u =? i) (users d).

(** [.where('userId', '=', a).where('friendUserId', '=', b)] *)
Definition whereEdge (a b : Z) (r : Friendship) : bool :=
  (userId r =? a) && (friendUserId r =? b).

(** [selectFrom('friendships').where(...)], first row. *)
Definition selectFriendship (p : Friendship -> bool) (d : Database)
  : option Friendship :=
  find p (friendships d).

Definition setStatus (s : FriendshipStatus) (r : Friendship) : Friendship :=
  {| id := id r; userId := userId r; friendUserId := friendUserId r;
     status := s |}.

(** The rows after [set({ status: s }).where(p)]: every row the condition
    selects gets the status, the others stay. *)
Definition setWhere (s : FriendshipStatus) (p : Friendship -> bool)
    (rows : list Friendship) : list Friendship :=
  map (fun r => if p r then setStatus s r else r) rows.

(** [updateTable('friendships').set({ status: s }).where(...)] *)
Definition updateStatus (s : FriendshipStatus) (p : Friendship -> bool)
    (d : Database) : Result (unit * Database) :=
  Ok (tt, {| users := users d;
             friendships := setWhere s p (friendships d) |}).

(** The generated [id] of the next row: above every id in the table. *)
Definition nextId (rows : list Friendship) : Z :=
  fold_right (fun r m => Z.max (id r + 1) m) 1 rows.

(** Modelled from the spec: the schema of the [friendships] table is not
    among the sources; the table is "keyed by (userId, friendUserId)", so an
    insert of a pair that already has a row is rejected.  (The source's note
    on [send] records the same: inserting the pair a second time was an
    error.)

    [insertInto('friendships').values({ userId, friendUserId, status })] *)
Definition insertFriendship (a b : Z) (s : FriendshipStatus) (d : Database)
  : Result (unit * Database) :=
  if existsb (whereEdge a b) (friendships d)
  then Err (DATA_ACCESS UniqueViolation)
  else Ok (tt, {| users := users d;
                  friendships :=
                    friendships d ++
                    [ {| id := nextId (friendships d); userId := a;
                         friendUserId := b; status := s |} ] |}).

(** ** Middlewares *)

(** Modelled from the spec: [authGuard] is not among the sources; each
    procedure "requires an authenticated session".  The context holds the
    session's user id, if there is a session, and the guard hands it on. *)
Definition authGuard (session : option Z) : Task Z :=
  match session with
  | Some u => ret u
  | None => throw UNAUTHORIZED
  end.

(** The input is the parsed [{ friendUserId }]: an id. *)
Definition canSendFriendshipRequest (session : option Z) (friendUserId : Z)
    (next : Z -> Task unit) : Task unit :=
  sessionUserId <- authGuard session ;;
  _ <- executeTakeFirstOrThrow (selectUserId friendUserId) BAD_REQUEST ;;
  next sessionUserId.

Definition canAnswerFriendshipRequest (session : option Z) (friendUserId : Z)
    (next : Z -> Task unit) : Task unit :=
  sessionUserId <- authGuard session ;;
  _ <- executeTakeFirstOrThrow
         (selectFriendship
            (fun r => whereEdge friendUserId sessionUserId r
                      && status_eqb (status r) requested))
         BAD_REQUEST ;;
  next sessionUserId.

(** ** The router *)

Module friendshipRequestRouter.

Definition send (session : option Z) (friendUserId : Z) : Task unit :=
  canSendFriendshipRequest session friendUserId (fun userId =>
    existingRequest <-
      executeTakeFirst
        (selectFriendship
           (fun r => whereEdge userId friendUserId r
                     && negb (status_eqb (status r) accepted))) ;;
    match existingRequest with
    | Some _ =>
        execute (updateStatus requested (whereEdge userId friendUserId))
    | None =>
        execute (insertFriendship userId friendUserId requested)
    end).

(** The callback [accept] hands to [transaction().execute]: its
    statements run on the transaction [t]. *)
Definition acceptStatements (userId friendUserId : Z) : Task unit :=
  _ <- execute (updateStatus accepted (whereEdge friendUserId userId)) ;;
  existingFriendship <-
    executeTakeFirst (selectFriendship (whereEdge userId friendUserId)) ;;
  match existingFriendship with
  | None =>
      execute (insertFriendship userId friendUserId accepted)
  | Some _ =>
      execute (updateStatus accepted (whereEdge userId friendUserId))
  end.

Definition accept (session : option Z) (friendUserId : Z) : Task unit :=
  canAnswerFriendshipRequest session friendUserId (fun userId =>
    transaction (acceptStatements userId friendUserId)).

Definition decline (session : option Z) (friendUserId : Z) : Task unit :=
  canAnswerFriendshipRequest session friendUserId (fun userId =>
    execute (updateStatus declined (whereEdge friendUserId userId))).

End friendshipRequestRouter.
Import friendshipRequestRouter.

(** ** Running a call *)

(** A connection on which every statement runs. *)
Definition reliable (d : Database) : Connection :=
  {| db := d; faults := [] |}.

(** A connection on which the statement after the first [n] fails. *)
Definition failsAt (n : nat) (d : Database) : Connection :=
  {| db := d; faults := repeat false n ++ [true] |}.

(** The tables a task leaves, and what it returns, on a reliable
    connection. *)
Definition after {A} (t : Task A) (d : Database) : Database :=
  db (fst (t (reliable d))).

Definition outcome {A} (t : Task A) (d : Database) : Result A :=
  snd (t (reliable d)).

Inductive Procedure : Type := Send | Accept | Decline.

Definition call (p : Procedure) : option Z -> Z -> Task unit :=
  match p with
  | Send => send
  | Accept => accept
  | Decline => decline
  end.

(** The tables that calls of the three procedures lead to from [d0]: any
    caller, any input, and any failures on the connection of each call. *)
Inductive reachable (d0 : Database) : Database -> Prop :=
| reach_start : reachable d0 d0
| reach_call (d : Database) (p : Procedure) (s : option Z) (f : Z)
    (fl : list bool) :
    reachable d0 d ->
    reachable d0 (db (fst (call p s f {| db := d; faults := fl |}))).

(** A procedure is all-or-nothing when, whatever statements fail on the
    connection, a call either succeeds with the tables a reliable connection
    would have left, or is rejected with the tables as they were; and a
    BAD_REQUEST is one the reliable connection would have given too. *)
Definition allOrNothing (op : option Z -> Z -> Task unit) : Prop :=
  forall (c : Connection) (s : option Z) (f : Z),
    match snd (op s f c) with
    | Ok _ =>
        op s f (reliable (db c)) = (reliable (db (fst (op s f c))), Ok tt)
    | Err e =>
        db (fst (op s f c)) = db c /\
        (e = BAD_REQUEST ->
         op s f (reliable (db c)) = (reliable (db c), Err BAD_REQUEST))
    end.

(** ** Vocabulary of the properties *)

(** The rows hold the edge [(a, b)] with status [s]. *)
Definition edgeIn (rows : list Friendship) (a b : Z) (s : FriendshipStatus)
  : bool :=
  existsb (fun r => whereEdge a b r && status_eqb (status r) s) rows.

(** The table has a row for the edge [(a, b)] with status [s]. *)
Definition edge (d : Database) (a b : Z) (s : FriendshipStatus) : bool :=
  edgeIn (friendships d) a b s.

(** The table has a row for the edge [(a, b)], whatever its status. *)
Definition hasEdge (d : Database) (a b : Z) : bool :=
  existsb (whereEdge a b) (friendships d).

(** The edge [(a, b)] is there with a status other than accepted: what
    [send] looks for. *)
Definition openEdge (d : Database) (a b : Z) : bool :=
  existsb (fun r => whereEdge a b r && negb (status_eqb (status r) accepted))
          (friendships d).

Definition key (r : Friendship) : Z * Z := (userId r, friendUserId r).

(** The table's key: no two rows for one ordered pair. *)
Definition keyed (d : Database) : Prop :=
  NoDup (map key (friendships d)).

(** The rows that are not the edge [(a, b)]. *)
Definition others (a b : Z) (d : Database) : list Friendship :=
  filter (fun r => negb (whereEdge a b r)) (friendships d).

(** The rows of the two edges between [u] and [f]. *)
Definition between (u f : Z) (r : Friendship) : bool :=
  whereEdge f u r || whereEdge u f r.

(** The friendship invariant: [(a, b)] is accepted exactly when [(b, a)]
    is. *)
Definition mutual (d : Database) : Prop :=
  forall a b, edge d a b accepted = true <-> edge d b a accepted = true.

(** The row [send] and [accept] insert. *)
Definition newRow (a b : Z) (s : FriendshipStatus) (rows : list Friendship)
  : Friendship :=
  {| id := nextId rows; userId := a; friendUserId := b; status := s |}.

Definition withRows (d : Database) (rows : list Friendship) : Database :=
  {| users := users d; friendships := rows |}.

(** The rows a successful [accept] of [f]'s request by [u] leaves. *)
Definition acceptedRows (u f : Z) (rows : list Friendship)
  : list Friendship :=
  let rows1 := setWhere accepted (whereEdge f u) rows in
  if existsb (whereEdge u f) rows1
  then setWhere accepted (whereEdge u f) rows1
  else rows1 ++ [newRow u f accepted rows1].

(** C2 as the specification words it: for an existing target, [send]
    resets the edge [(u, f)] when it is there and not accepted, and
    otherwise inserts it. *)
Definition sendAsSpecified (d : Database) (u f : Z) : Prop :=
  In f (users d) ->
  outcome (send (Some u) f) d = Ok tt /\
  friendships (after (send (Some u) f) d) =
    if openEdge d u f
    then setWhere requested (whereEdge u f) (friendships d)
    else friendships d ++ [newRow u f requested (friendships d)].

(** C7 as the specification words it: a user in the users table who sends
    a request to their own id passes the guard and gets the self-edge with
    status requested, inserted or reset. *)
Definition selfSendAsSpecified (d : Database) (u : Z) : Prop :=
  In u (users d) ->
  outcome (send (Some u) u) d = Ok tt /\
  edge (after (send (Some u) u) d) u u requested = true.

(** ** Sample tables *)

Definition alice : Z := 1.
Definition bob : Z := 2.

(** Two users, no friendships. *)
Definition fresh : Database := {| users := [alice; bob]; friendships := [] |}.

(** Alice and Bob are friends: she asked, he accepted. *)
Definition friends : Database :=
  after (accept (Some bob) alice) (after (send (Some alice) bob) fresh).

(** Bob declined Alice's request. *)
Definition turnedDown : Database :=
  after (decline (Some bob) alice) (after (send (Some alice) bob) fresh).

(** Bob declined Alice's request and then asked her himself. *)
Definition secondThoughts : Database :=
  after (send (Some bob) alice) turnedDown.

(** Alice asked herself and accepted. *)
Definition ownFriend : Database :=
  after (accept (Some alice) alice) (after (send (Some alice) alice) fresh).

(** ** Tactics *)

Ltac unfold_run :=
  unfold send, accept, acceptStatements, decline, canSendFriendshipRequest,
    canAnswerFriendshipRequest, transaction, executeTakeFirstOrThrow,
    executeTakeFirst, execute, bind, authGuard, ret, throw, reliable,
    updateStatus, insertFriendship, selectUserId, selectFriendship.

(** A call sends at most four statements. *)
Ltac split_faults c :=
  let d := fresh "d" in
  let fl := fresh "fl" in
  destruct c as [d fl];
  destruct fl as [|[] [|[] [|[] [|[] fl]]]].

Ltac run_cases :=
  repeat (cbn;
          match goal with
          | |- context [find ?p ?l] => destruct (find p l)
          | |- context [existsb ?p ?l] => destruct (existsb p l)
          end);
  cbn;
  try solve [ reflexivity
            | split; [reflexivity | discriminate]
            | split; reflexivity ].

Ltac pair_cases :=
  repeat match goal with
         | |- context [?x =? ?y] => destruct (Z.eqb_spec x y); subst
         | H : context [?x =? ?y] |- _ => destruct (Z.eqb_spec x y); subst
         end;
  simpl in *.

Ltac same_pair C :=
  apply andb_true_iff in C; rewrite !Z.eqb_eq in C; destruct C; subst.

(** As [run_cases], keeping what each read found; [found] relates
    [existsb] to [find]. *)
Ltac run_exact found :=
  repeat (cbn;
          first
            [ match goal with
              | E : find ?p ?l = _ |- context [find ?p ?l] => rewrite E
              end
            | match goal with
              | |- context [existsb ?p ?l] => rewrite (found _ p l)
              end
            | match goal with
              | |- context [find ?p ?l] =>
                  let E := fresh "E" in destruct (find p l) eqn:E
              end ]);
  cbn.

(** * Proofs *)

(** ** Sample runs, checked *)

Example run_send :
  friendships (after (send (Some alice) bob) fresh)
  = [mkFriendship 1 alice bob requested].
Proof. reflexivity. Qed.

Example run_send_accept :
  friendships
    (after (accept (Some bob) alice) (after (send (Some alice) bob) fresh))
  = [mkFriendship 1 alice bob accepted; mkFriendship 2 bob alice accepted].
Proof. reflexivity. Qed.

Example run_send_decline_send :
  friendships
    (after (send (Some alice) bob)
       (after (decline (Some bob) alice)
          (after (send (Some alice) bob) fresh)))
  = [mkFriendship 1 alice bob requested].
Proof. reflexivity. Qed.

Example run_send_accept_send :
  outcome (send (Some alice) bob)
    (after (accept (Some bob) alice) (after (send (Some alice) bob) fresh))
  = Err (DATA_ACCESS UniqueViolation).
Proof. reflexivity. Qed.

(** ** How a call runs *)

Lemma find_existsb {A} (p : A -> bool) (l : list A) :
  existsb p l = match find p l with Some _ => true | None => false end.
Proof.
  induction l as [|x l IH]; simpl; [reflexivity|].
  destruct (p x); [reflexivity | exact IH].
Qed.

(** On a reliable connection [send] is decided by what its reads find. *)
Lemma send_reliable (u f : Z) (d : Database) :
  send (Some u) f (reliable d) =
  if existsb (fun i => i =? f) (users d) then
    if existsb (fun r => whereEdge u f r
                         && negb (status_eqb (status r) accepted))
         (friendships d)
    then (reliable (withRows d (setWhere requested (whereEdge u f)
                                  (friendships d))), Ok tt)
    else if hasEdge d u f
    then (reliable d, Err (DATA_ACCESS UniqueViolation))
    else (reliable (withRows d (friendships d
                                ++ [newRow u f requested (friendships d)])),
          Ok tt)
  else (reliable d, Err BAD_REQUEST).
Proof.
  rewrite !find_existsb. unfold hasEdge. unfold_run; cbn.
  destruct (find _ (users d)); cbn; [|reflexivity].
  destruct (find _ (friendships d)); cbn; [reflexivity|].
  destruct (existsb _ (friendships d)); reflexivity.
Qed.

Lemma accept_reliable (u f : Z) (d : Database) :
  accept (Some u) f (reliable d) =
  if edge d f u requested
  then (reliable (withRows d (acceptedRows u f (friendships d))), Ok tt)
  else (reliable d, Err BAD_REQUEST).
Proof.
  unfold edge, edgeIn, acceptedRows.
  rewrite (find_existsb _ (friendships d)).
  unfold_run; cbn.
  destruct (find _ (friendships d)); cbn; [|reflexivity].
  rewrite find_existsb.
  destruct (find _ (setWhere _ _ _)) eqn:E; cbn; [reflexivity|].
  rewrite find_existsb, E. reflexivity.
Qed.

Lemma decline_reliable (u f : Z) (d : Database) :
  decline (Some u) f (reliable d) =
  if edge d f u requested
  then (reliable (withRows d (setWhere declined (whereEdge f u)
                                (friendships d))), Ok tt)
  else (reliable d, Err BAD_REQUEST).
Proof.
  unfold edge, edgeIn. rewrite find_existsb. unfold_run; cbn.
  destruct (find _ (friendships d)); reflexivity.
Qed.

Lemma send_allOrNothing : allOrNothing send.
Proof.
  intros c [u|] f; split_faults c; unfold_run; run_cases.
Qed.

Lemma accept_allOrNothing : allOrNothing accept.
Proof.
  intros c [u|] f; split_faults c; unfold_run; run_cases.
Qed.

Lemma decline_allOrNothing : allOrNothing decline.
Proof.
  intros c [u|] f; split_faults c; unfold_run; run_cases.
Qed.

(** Without a session nothing is read or written. *)
Lemma unauthenticated (f : Z) (c : Connection) :
  send None f c = (c, Err UNAUTHORIZED)
  /\ accept None f c = (c, Err UNAUTHORIZED)
  /\ decline None f c = (c, Err UNAUTHORIZED).
Proof. repeat split. Qed.

(** ** Edges under update and insert *)

Lemma status_eqb_eq (s t : FriendshipStatus) :
  status_eqb s t = true <-> s = t.
Proof. destruct s, t; simpl; split; congruence. Qed.

Lemma status_eqb_refl (s : FriendshipStatus) : status_eqb s s = true.
Proof. destruct s; reflexivity. Qed.

Lemma whereEdge_key (a b : Z) (r : Friendship) :
  whereEdge a b r = true <-> key r = (a, b).
Proof.
  unfold whereEdge, key. rewrite andb_true_iff, !Z.eqb_eq.
  split; [intros [-> ->]; reflexivity | intros E; inversion E; auto].
Qed.

Lemma whereEdge_setStatus (a b : Z) (s : FriendshipStatus) (r : Friendship) :
  whereEdge a b (setStatus s r) = whereEdge a b r.
Proof. reflexivity. Qed.

Lemma key_setWhere s p rows : map key (setWhere s p rows) = map key rows.
Proof.
  unfold setWhere. rewrite map_map. apply map_ext.
  intros r. destruct (p r); reflexivity.
Qed.

Lemma hasKey_setWhere a b s p rows :
  existsb (whereEdge a b) (setWhere s p rows) = existsb (whereEdge a b) rows.
Proof.
  induction rows as [|r rows IH]; simpl; [reflexivity|].
  rewrite IH. destruct (p r); reflexivity.
Qed.

(** The rows' edges after an update of the edge [(a, b)]. *)
Lemma edgeIn_setWhere a b s rows a' b' t :
  edgeIn (setWhere s (whereEdge a b) rows) a' b' t =
  if (a' =? a) && (b' =? b)
  then existsb (whereEdge a b) rows && status_eqb s t
  else edgeIn rows a' b' t.
Proof.
  unfold edgeIn.
  destruct ((a' =? a) && (b' =? b)) eqn:C.
  - apply andb_true_iff in C. rewrite !Z.eqb_eq in C. destruct C; subst a' b'.
    induction rows as [|r rows IH]; simpl; [reflexivity|].
    rewrite IH. destruct (whereEdge a b r) eqn:W.
    + rewrite whereEdge_setStatus, W. simpl.
      destruct (status_eqb s t); simpl; [reflexivity|].
      now rewrite andb_false_r.
    + rewrite W. reflexivity.
  - induction rows as [|r rows IH]; simpl; [reflexivity|].
    rewrite IH. f_equal.
    destruct (whereEdge a b r) eqn:W; [|reflexivity].
    rewrite whereEdge_setStatus.
    destruct (whereEdge a' b' r) eqn:W'; [|reflexivity].
    apply whereEdge_key in W, W'. rewrite W in W'. inversion W'; subst.
    now rewrite !Z.eqb_refl in C.
Qed.

(** The rows' edges after the insert of the edge [(a, b)]. *)
Lemma edgeIn_insert a b s rows r0 a' b' t :
  edgeIn (rows ++ [newRow a b s r0]) a' b' t =
  edgeIn rows a' b' t || ((a' =? a) && (b' =? b) && status_eqb s t).
Proof.
  unfold edgeIn. rewrite existsb_app. simpl. rewrite orb_false_r.
  unfold whereEdge. simpl. rewrite (Z.eqb_sym a a'), (Z.eqb_sym b b').
  reflexivity.
Qed.

Lemma edgeIn_hasKey rows a b s :
  edgeIn rows a b s = true -> existsb (whereEdge a b) rows = true.
Proof.
  unfold edgeIn. rewrite !existsb_exists.
  intros [r [Hin H]]. apply andb_true_iff in H. exists r. tauto.
Qed.

(** Under the table's key an edge has one status. *)
Lemma edgeIn_unique rows a b s t :
  NoDup (map key rows) ->
  edgeIn rows a b s = true -> edgeIn rows a b t = true -> s = t.
Proof.
  unfold edgeIn. rewrite !existsb_exists.
  intros ND [r [Hr Pr]] [r' [Hr' Pr']].
  apply andb_true_iff in Pr, Pr'. destruct Pr as [Kr Sr], Pr' as [Kr' Sr'].
  apply status_eqb_eq in Sr, Sr'. apply whereEdge_key in Kr, Kr'.
  assert (r = r') as <-.
  { clear Sr Sr'. induction rows as [|x rows IH]; [contradiction|].
    simpl in ND. inversion ND as [|? ? Hx ND']; subst.
    destruct Hr as [->|Hr], Hr' as [->|Hr']; auto.
    - exfalso. apply Hx. rewrite Kr, <- Kr'. now apply in_map.
    - exfalso. apply Hx. rewrite Kr', <- Kr. now apply in_map. }
  congruence.
Qed.

(** The rows' edges after a successful [accept]: the reverse edge [(u, f)]
    is there and accepted, the answered edge [(f, u)] is accepted if it was
    there, every other edge is as it was. *)
Lemma edgeIn_acceptedRows u f rows a b t :
  edgeIn (acceptedRows u f rows) a b t =
  if (a =? u) && (b =? f) then status_eqb accepted t
  else if (a =? f) && (b =? u)
       then existsb (whereEdge f u) rows && status_eqb accepted t
       else edgeIn rows a b t.
Proof.
  unfold acceptedRows.
  destruct (existsb (whereEdge u f) (setWhere accepted (whereEdge f u) rows))
    eqn:E.
  - rewrite edgeIn_setWhere, E, edgeIn_setWhere.
    destruct ((a =? u) && (b =? f)); reflexivity.
  - rewrite edgeIn_insert, edgeIn_setWhere.
    destruct ((a =? u) && (b =? f)) eqn:C; simpl.
    + apply andb_true_iff in C. rewrite !Z.eqb_eq in C. destruct C; subst a b.
      destruct ((u =? f) && (f =? u)) eqn:C'.
      * apply andb_true_iff in C'. rewrite !Z.eqb_eq in C'.
        destruct C' as [-> _]. rewrite hasKey_setWhere in E. rewrite E.
        reflexivity.
      * destruct (edgeIn rows u f t) eqn:E'; [|reflexivity].
        apply edgeIn_hasKey in E'. rewrite hasKey_setWhere in E. congruence.
    + now rewrite orb_false_r.
Qed.

(** ** The properties *)

(** C1.  For every authenticated caller [u] and every [f] whose edge
    [(f, u)] is there with status requested: on a reliable connection
    [accept(f)] succeeds, and whenever it succeeds both directed edges,
    [(f, u)] and [(u, f)], are there with status accepted. *)
Theorem accept_yields_both_accepted_edges (c : Connection) (u f : Z) :
  edge (db c) f u requested = true ->
  (faults c = [] -> snd (accept (Some u) f c) = Ok tt) /\
  (snd (accept (Some u) f c) = Ok tt ->
   edge (db (fst (accept (Some u) f c))) f u accepted = true /\
   edge (db (fst (accept (Some u) f c))) u f accepted = true).
Proof.
  intros Hreq. split.
  - destruct c as [d fl]. simpl in *. intros ->.
    fold (reliable d). now rewrite accept_reliable, Hreq.
  - intros Hok. pose proof (accept_allOrNothing c (Some u) f) as H.
    rewrite Hok, accept_reliable, Hreq in H.
    apply (f_equal (fun x => db (fst x))) in H. simpl in H.
    unfold edge. rewrite <- H. simpl. rewrite !edgeIn_acceptedRows.
    apply edgeIn_hasKey in Hreq. unfold edge in Hreq. rewrite Hreq.
    rewrite !Z.eqb_refl. simpl.
    destruct ((f =? u) && (u =? f)); split; reflexivity.
Qed.

Lemma accept_yields_both_accepted_edges_witness :
  edge (db (reliable (after (send (Some alice) bob) fresh)))
       alice bob requested = true
  /\ snd (accept (Some bob) alice
            (reliable (after (send (Some alice) bob) fresh))) = Ok tt
  /\ edge (after (accept (Some bob) alice)
             (after (send (Some alice) bob) fresh)) alice bob accepted = true
  /\ edge (after (accept (Some bob) alice)
             (after (send (Some alice) bob) fresh)) bob alice accepted = true.
Proof.
  pose proof (accept_yields_both_accepted_edges
                (reliable (after (send (Some alice) bob) fresh)) bob alice
                eq_refl) as [H1 H2].
  split; [reflexivity|]. split; [exact (H1 eq_refl)|].
  exact (H2 (H1 eq_refl)).
Defined.

Lemma In_users (f : Z) (d : Database) :
  In f (users d) <-> existsb (fun i => i =? f) (users d) = true.
Proof.
  rewrite existsb_exists. split.
  - intros H. exists f. split; [exact H | apply Z.eqb_refl].
  - intros [i [H E]]. apply Z.eqb_eq in E. now subst.
Qed.

Lemma hasEdge_split (d : Database) (a b : Z) :
  hasEdge d a b = openEdge d a b || edge d a b accepted.
Proof.
  unfold hasEdge, openEdge, edge, edgeIn.
  induction (friendships d) as [|r rows IH]; simpl; [reflexivity|].
  rewrite IH. destruct (whereEdge a b r), (status_eqb (status r) accepted);
    simpl; rewrite ?orb_true_r; reflexivity.
Qed.

(** C2, counterexample.  Alice sends Bob a request while her edge to him is
    accepted: there is no edge to reset, the insert is rejected by the
    table's key, and no edge [(alice, bob)] with status requested appears. *)
Lemma send_to_friend_inserts_nothing :
  ~ sendAsSpecified friends alice bob.
Proof.
  intros H. destruct H as [H _]; [simpl; auto|]. discriminate H.
Qed.

(** C2, amended.  For every authenticated caller [u] and existing target
    [f], on a reliable connection: if the edge [(u, f)] is there with a
    status other than accepted, [send(f)] resets it to requested; if there
    is no edge [(u, f)], [send(f)] inserts one with status requested; if
    the edge is there only as accepted, the insert is rejected and the
    tables stay as they were.  In particular a declined edge is re-opened
    as requested. *)
Theorem send_requests_or_rerequests (d : Database) (u f : Z) :
  In f (users d) ->
  (openEdge d u f = true ->
   outcome (send (Some u) f) d = Ok tt /\
   friendships (after (send (Some u) f) d)
   = setWhere requested (whereEdge u f) (friendships d))
  /\ (hasEdge d u f = false ->
      outcome (send (Some u) f) d = Ok tt /\
      friendships (after (send (Some u) f) d)
      = friendships d ++ [newRow u f requested (friendships d)])
  /\ (openEdge d u f = false -> hasEdge d u f = true ->
      outcome (send (Some u) f) d = Err (DATA_ACCESS UniqueViolation) /\
      after (send (Some u) f) d = d)
  /\ (edge d u f declined = true ->
      outcome (send (Some u) f) d = Ok tt /\
      forall t, edge (after (send (Some u) f) d) u f t
                = status_eqb requested t).
Proof.
  intros Hf. apply In_users in Hf.
  unfold outcome, after. rewrite send_reliable, Hf. fold (openEdge d u f).
  assert (Hdecl : edge d u f declined = true -> openEdge d u f = true).
  { unfold openEdge, edge, edgeIn. rewrite !existsb_exists.
    intros [r [Hin Hr]]. exists r. split; [assumption|].
    apply andb_true_iff in Hr as [-> Hs]. apply status_eqb_eq in Hs.
    now rewrite Hs. }
  split; [|split; [|split]].
  - intros ->. split; reflexivity.
  - intros Hno. rewrite hasEdge_split in Hno.
    apply orb_false_iff in Hno as [Ho Ha].
    rewrite Ho, hasEdge_split, Ho, Ha. split; reflexivity.
  - intros -> ->. split; reflexivity.
  - intros Hd. rewrite (Hdecl Hd). split; [reflexivity|]. intros t.
    unfold edge. simpl. rewrite edgeIn_setWhere, !Z.eqb_refl. simpl.
    apply edgeIn_hasKey in Hd. now rewrite Hd.
Qed.

Lemma send_requests_or_rerequests_witness :
  In bob (users turnedDown)
  /\ edge turnedDown alice bob declined = true
  /\ outcome (send (Some alice) bob) turnedDown = Ok tt
  /\ forall t, edge (after (send (Some alice) bob) turnedDown) alice bob t
               = status_eqb requested t.
Proof.
  assert (In bob (users turnedDown)) as Hin by (simpl; auto).
  destruct (send_requests_or_rerequests turnedDown alice bob Hin)
    as [_ [_ [_ H]]].
  split; [exact Hin|]. split; [reflexivity|]. exact (H eq_refl).
Defined.

(** An update of the edge [(a, b)] leaves alone the rows a condition [q]
    keeps, when [q] looks at the pair only and does not keep [(a, b)]. *)
Lemma filter_setWhere a b s (q : Friendship -> bool) rows :
  (forall r, whereEdge a b r = true -> q r = false) ->
  (forall r, q (setStatus s r) = q r) ->
  filter q (setWhere s (whereEdge a b) rows) = filter q rows.
Proof.
  intros Hq Hs. induction rows as [|r rows IH]; simpl; [reflexivity|].
  rewrite IH. destruct (whereEdge a b r) eqn:W; [|reflexivity].
  now rewrite Hs, (Hq r W).
Qed.

Lemma others_setWhere a b s rows :
  filter (fun r => negb (whereEdge a b r)) (setWhere s (whereEdge a b) rows)
  = filter (fun r => negb (whereEdge a b r)) rows.
Proof.
  apply filter_setWhere; [intros r -> | intros r]; reflexivity.
Qed.

(** C3.  For every authenticated caller [u] and every [f] whose edge
    [(f, u)] is there with status requested: on a reliable connection
    [decline(f)] succeeds, and whenever it succeeds the edge [(f, u)] has
    status declined and no other, no row is inserted (the table has the
    rows it had, pair by pair, so no reciprocal edge [(u, f)] appears), and
    the rows other than the edge [(f, u)], and the users, are unchanged. *)
Theorem decline_sets_declined_only (c : Connection) (u f : Z) :
  edge (db c) f u requested = true ->
  (faults c = [] -> snd (decline (Some u) f c) = Ok tt) /\
  (snd (decline (Some u) f c) = Ok tt ->
   (forall t, edge (db (fst (decline (Some u) f c))) f u t
              = status_eqb declined t)
   /\ map key (friendships (db (fst (decline (Some u) f c))))
      = map key (friendships (db c))
   /\ hasEdge (db (fst (decline (Some u) f c))) u f = hasEdge (db c) u f
   /\ others f u (db (fst (decline (Some u) f c))) = others f u (db c)
   /\ users (db (fst (decline (Some u) f c))) = users (db c)).
Proof.
  intros Hreq. split.
  - destruct c as [d fl]. simpl in *. intros ->.
    fold (reliable d). now rewrite decline_reliable, Hreq.
  - intros Hok. pose proof (decline_allOrNothing c (Some u) f) as H.
    rewrite Hok, decline_reliable, Hreq in H.
    apply (f_equal (fun x => db (fst x))) in H. simpl in H.
    rewrite <- H. unfold edge, hasEdge, others. simpl.
    repeat split.
    + intros t. rewrite edgeIn_setWhere, !Z.eqb_refl. simpl.
      apply edgeIn_hasKey in Hreq. now rewrite Hreq.
    + apply key_setWhere.
    + apply hasKey_setWhere.
    + apply others_setWhere.
Qed.

Lemma decline_sets_declined_only_witness :
  edge (after (send (Some alice) bob) fresh) alice bob requested = true
  /\ outcome (decline (Some bob) alice) (after (send (Some alice) bob) fresh)
     = Ok tt
  /\ edge turnedDown alice bob declined = true
  /\ hasEdge turnedDown bob alice = false.
Proof.
  pose proof (decline_sets_declined_only
                (reliable (after (send (Some alice) bob) fresh)) bob alice
                eq_refl) as [H1 H2].
  pose proof (H2 (H1 eq_refl)) as [He [_ [Hr _]]].
  split; [reflexivity|]. split; [exact (H1 eq_refl)|].
  split; [exact (He declined) | exact Hr].
Defined.

(** C4.  For an authenticated caller [u] and every input [f], on a reliable
    connection: [send(f)] is rejected with BAD_REQUEST if and only if no
    user with id [f] is in the users table; [accept(f)] and [decline(f)]
    are rejected with BAD_REQUEST if and only if no edge [(f, u)] with
    status requested is in the friendships table. *)
Theorem bad_request_iff_guard_fails (d : Database) (u f : Z) :
  (outcome (send (Some u) f) d = Err BAD_REQUEST <-> ~ In f (users d))
  /\ (outcome (accept (Some u) f) d = Err BAD_REQUEST
      <-> edge d f u requested = false)
  /\ (outcome (decline (Some u) f) d = Err BAD_REQUEST
      <-> edge d f u requested = false).
Proof.
  unfold outcome.
  rewrite send_reliable, accept_reliable, decline_reliable, In_users.
  fold (openEdge d u f).
  split; [|split].
  - destruct (existsb _ (users d)); simpl.
    + split; [|intros H; now elim H].
      destruct (openEdge d u f); [discriminate|].
      destruct (hasEdge d u f); discriminate.
    + split; [discriminate | reflexivity].
  - destruct (edge d f u requested); simpl; split;
      try discriminate; reflexivity.
  - destruct (edge d f u requested); simpl; split;
      try discriminate; reflexivity.
Qed.

(** What the transaction is for: run on their own, the statements of
    [accept] can stop half way.  Here the read after the first update
    fails, and the answered edge stays accepted with no reverse edge. *)
Example statements_alone_stop_half_way :
  let d := after (send (Some alice) bob) fresh in
  let r := acceptStatements bob alice (failsAt 1 d) in
  snd r = Err (DATA_ACCESS Unavailable)
  /\ friendships (db (fst r)) = [mkFriendship 1 alice bob accepted].
Proof. split; reflexivity. Qed.

(** C5.  [accept] runs its statements, the update of the edge [(f, u)] and
    the insert or update of the reverse edge [(u, f)], as the body of one
    transaction; so whichever statement fails, and whatever the call is
    rejected with, the tables are left as they were before the call. *)
Theorem accept_is_atomic (c : Connection) (s : option Z) (f : Z) (e : Error) :
  accept s f
  = canAnswerFriendshipRequest s f
      (fun userId => transaction (acceptStatements userId f))
  /\ (snd (accept s f c) = Err e -> db (fst (accept s f c)) = db c).
Proof.
  split; [reflexivity|].
  intros He. pose proof (accept_allOrNothing c s f) as H.
  rewrite He in H. exact (proj1 H).
Qed.

Lemma accept_is_atomic_witness :
  let c := failsAt 2 (after (send (Some alice) bob) fresh) in
  snd (accept (Some bob) alice c) = Err (DATA_ACCESS Unavailable)
  /\ friendships (db (fst (accept (Some bob) alice c)))
     = [mkFriendship 1 alice bob requested].
Proof.
  intros c. split; [reflexivity|].
  rewrite (proj2 (accept_is_atomic c (Some bob) alice
                    (DATA_ACCESS Unavailable)) eq_refl).
  reflexivity.
Defined.

(** ** The table's key and the friendship invariant *)

Lemma openEdge_split (d : Database) (a b : Z) :
  openEdge d a b = edge d a b requested || edge d a b declined.
Proof.
  unfold openEdge, edge, edgeIn.
  induction (friendships d) as [|r rows IH]; simpl; [reflexivity|].
  rewrite IH. destruct (whereEdge a b r), (status r); simpl;
    rewrite ?orb_true_r; reflexivity.
Qed.

(** Under the key, an edge that is requested or declined is not accepted. *)
Lemma keyed_open_not_accepted (d : Database) (a b : Z) :
  keyed d -> openEdge d a b = true -> edge d a b accepted = false.
Proof.
  intros K Ho. rewrite openEdge_split in Ho.
  destruct (edge d a b accepted) eqn:Ea; [|reflexivity].
  apply orb_true_iff in Ho as [Ho|Ho];
    pose proof (edgeIn_unique _ _ _ _ _ K Ea Ho); discriminate.
Qed.

Lemma keyed_setWhere d s p :
  keyed d -> keyed (withRows d (setWhere s p (friendships d))).
Proof. unfold keyed. simpl. now rewrite key_setWhere. Qed.

Lemma keyed_insert d a b s r0 :
  keyed d -> hasEdge d a b = false ->
  keyed (withRows d (friendships d ++ [newRow a b s r0])).
Proof.
  unfold keyed, hasEdge. simpl. intros K Hno.
  rewrite map_app. simpl.
  apply NoDup_app; [exact K | repeat constructor; intros [] |].
  intros k Hk [<-|[]].
  apply in_map_iff in Hk as [r [Hr Hin]].
  apply whereEdge_key in Hr.
  assert (existsb (whereEdge a b) (friendships d) = true)
    by (apply existsb_exists; eauto).
  congruence.
Qed.

Lemma keyed_acceptedRows d u f :
  keyed d -> keyed (withRows d (acceptedRows u f (friendships d))).
Proof.
  intros K. unfold acceptedRows.
  destruct (existsb _ (setWhere accepted (whereEdge f u) (friendships d)))
    eqn:E.
  - apply (keyed_setWhere
             (withRows d (setWhere accepted (whereEdge f u) (friendships d)))).
    now apply keyed_setWhere.
  - apply (keyed_insert
             (withRows d (setWhere accepted (whereEdge f u) (friendships d))));
      [now apply keyed_setWhere | exact E].
Qed.

Lemma reliable_inj d d' (r r' : Result unit) :
  (reliable d, r) = (reliable d', r') -> d = d' /\ r = r'.
Proof. intros H. inversion H. auto. Qed.

(** A successful [send] keeps the key and the invariant. *)
Lemma send_preserves (u f : Z) (d d' : Database) :
  send (Some u) f (reliable d) = (reliable d', Ok tt) ->
  keyed d -> mutual d -> keyed d' /\ mutual d'.
Proof.
  rewrite send_reliable. fold (openEdge d u f). intros H K M.
  destruct (existsb _ (users d)); [|apply reliable_inj in H; now destruct H].
  destruct (openEdge d u f) eqn:Ho.
  - apply reliable_inj in H as [<- _].
    split; [now apply keyed_setWhere|].
    pose proof (keyed_open_not_accepted d u f K Ho) as Na.
    assert (edge d f u accepted = false) as Nb.
    { destruct (edge d f u accepted) eqn:E; [|reflexivity].
      apply M in E. congruence. }
    intros a b. unfold edge in *. simpl. rewrite !edgeIn_setWhere.
    rewrite andb_false_r. specialize (M a b).
    pair_cases; try tauto; rewrite ?Na, ?Nb; tauto.
  - destruct (hasEdge d u f) eqn:He;
      [apply reliable_inj in H; now destruct H|].
    apply reliable_inj in H as [<- _].
    split; [now apply keyed_insert|].
    intros a b. unfold edge. simpl. rewrite !edgeIn_insert.
    rewrite !andb_false_r, !orb_false_r. apply M.
Qed.

(** A successful [accept] keeps the key and the invariant. *)
Lemma accept_preserves (u f : Z) (d d' : Database) :
  accept (Some u) f (reliable d) = (reliable d', Ok tt) ->
  keyed d -> mutual d -> keyed d' /\ mutual d'.
Proof.
  rewrite accept_reliable. intros H K M.
  destruct (edge d f u requested) eqn:Hreq;
    [|apply reliable_inj in H; now destruct H].
  apply reliable_inj in H as [<- _]. split.
  - now apply keyed_acceptedRows.
  - intros a b. unfold edge in *. simpl. rewrite !edgeIn_acceptedRows.
    apply edgeIn_hasKey in Hreq. rewrite Hreq. specialize (M a b).
    pair_cases; tauto.
Qed.

(** A successful [decline] keeps the key and the invariant. *)
Lemma decline_preserves (u f : Z) (d d' : Database) :
  decline (Some u) f (reliable d) = (reliable d', Ok tt) ->
  keyed d -> mutual d -> keyed d' /\ mutual d'.
Proof.
  rewrite decline_reliable. intros H K M.
  destruct (edge d f u requested) eqn:Hreq;
    [|apply reliable_inj in H; now destruct H].
  apply reliable_inj in H as [<- _].
  split; [now apply keyed_setWhere|].
  assert (openEdge d f u = true) as Ho
    by (rewrite openEdge_split, Hreq; reflexivity).
  pose proof (keyed_open_not_accepted d f u K Ho) as Na.
  assert (edge d u f accepted = false) as Nb.
  { destruct (edge d u f accepted) eqn:E; [|reflexivity].
    apply M in E. congruence. }
  intros a b. unfold edge in *. simpl. rewrite !edgeIn_setWhere.
  rewrite andb_false_r. specialize (M a b).
  pair_cases; try tauto; rewrite ?Na, ?Nb; tauto.
Qed.

Lemma call_allOrNothing (p : Procedure) : allOrNothing (call p).
Proof.
  destruct p; [apply send_allOrNothing | apply accept_allOrNothing
              | apply decline_allOrNothing].
Qed.

(** One call, successful or not, keeps the key and the invariant. *)
Lemma call_preserves (p : Procedure) (s : option Z) (f : Z) (c : Connection) :
  keyed (db c) -> mutual (db c) ->
  keyed (db (fst (call p s f c))) /\ mutual (db (fst (call p s f c))).
Proof.
  intros K M. pose proof (call_allOrNothing p c s f) as H.
  destruct (snd (call p s f c)) as [[]|e].
  - destruct s as [u|]; [|destruct p; discriminate H].
    destruct p; simpl in *;
      eauto using send_preserves, accept_preserves, decline_preserves.
  - destruct H as [-> _]. auto.
Qed.

Lemma reachable_preserves (d0 d : Database) :
  keyed d0 -> mutual d0 -> reachable d0 d -> keyed d /\ mutual d.
Proof.
  intros K M R. induction R as [|d p s f fl R [IHk IHm]]; [auto|].
  now apply call_preserves.
Qed.

(** The key is needed: in a table with two rows for one pair, [decline]
    turns both to declined and leaves the reverse edge accepted alone. *)
Example unkeyed_decline_breaks_mutual :
  let d := {| users := [alice; bob];
              friendships := [mkFriendship 1 bob alice requested;
                              mkFriendship 2 bob alice accepted;
                              mkFriendship 3 alice bob accepted] |} in
  edge d alice bob accepted = edge d bob alice accepted
  /\ edge (after (decline (Some alice) bob) d) alice bob accepted = true
  /\ edge (after (decline (Some alice) bob) d) bob alice accepted = false.
Proof. repeat split. Qed.

(** C6.  The friendship invariant, [(a, b)] is accepted if and only if
    [(b, a)] is there and accepted, is preserved by every procedure: in
    every table reachable from a table that has it (and respects the
    table's key), each of [send], [accept] and [decline], by any caller,
    with any input, whether the call succeeds or is rejected, leaves a
    table that has it. *)
Theorem mutual_friendship_preserved (d0 d : Database) (p : Procedure)
    (s : option Z) (f : Z) (fl : list bool) :
  keyed d0 -> mutual d0 -> reachable d0 d ->
  mutual (db (fst (call p s f {| db := d; faults := fl |}))).
Proof.
  intros K M R.
  destruct (reachable_preserves d0 d K M R) as [K' M'].
  now apply call_preserves.
Qed.

Lemma fresh_keyed : keyed fresh.
Proof. constructor. Defined.

Lemma fresh_mutual : mutual fresh.
Proof. intros a b. split; intros H; exact H. Defined.

Lemma mutual_friendship_preserved_witness :
  keyed fresh /\ mutual fresh
  /\ reachable fresh (after (send (Some alice) bob) fresh)
  /\ mutual friends.
Proof.
  assert (reachable fresh (after (send (Some alice) bob) fresh)) as R
    by exact (reach_call fresh fresh Send (Some alice) bob []
                (reach_start fresh)).
  split; [exact fresh_keyed|]. split; [exact fresh_mutual|].
  split; [exact R|].
  exact (mutual_friendship_preserved fresh _ Accept (Some bob) alice []
           fresh_keyed fresh_mutual R).
Defined.

(** C7, counterexample.  Once the self-edge is accepted, a further
    [send] to oneself passes the guard, but there is nothing to reset and
    the insert is rejected by the table's key: the self-edge stays
    accepted. *)
Lemma send_to_accepted_self_is_rejected :
  ~ selfSendAsSpecified ownFriend alice.
Proof.
  intros H. destruct H as [H _]; [simpl; auto|]. discriminate H.
Qed.

(** C7, amended.  [send] does not require the target to differ from the
    caller: for an authenticated user [u] in the users table, on a
    reliable connection, [send(u)] passes the guard (it is not rejected with
    BAD_REQUEST or UNAUTHORIZED), and, unless the self-edge [(u, u)] is
    there with status accepted, it succeeds and leaves the self-edge
    there with status requested. *)
Theorem send_to_self_passes_guard (d : Database) (u : Z) :
  In u (users d) ->
  outcome (send (Some u) u) d <> Err BAD_REQUEST
  /\ outcome (send (Some u) u) d <> Err UNAUTHORIZED
  /\ (edge d u u accepted = false ->
      outcome (send (Some u) u) d = Ok tt /\
      edge (after (send (Some u) u) d) u u requested = true).
Proof.
  intros Hu. apply In_users in Hu.
  unfold outcome, after. rewrite send_reliable, Hu. fold (openEdge d u u).
  rewrite hasEdge_split.
  destruct (openEdge d u u) eqn:Ho; simpl.
  - split; [discriminate|]. split; [discriminate|]. intros _.
    split; [reflexivity|]. unfold edge. simpl.
    rewrite edgeIn_setWhere, !Z.eqb_refl. simpl.
    fold (hasEdge d u u). rewrite hasEdge_split, Ho. reflexivity.
  - destruct (edge d u u accepted); simpl.
    + split; [discriminate|]. split; discriminate.
    + split; [discriminate|]. split; [discriminate|]. intros _.
      split; [reflexivity|]. unfold edge. simpl.
      rewrite edgeIn_insert, !Z.eqb_refl. simpl. apply orb_true_r.
Qed.

Lemma send_to_self_passes_guard_witness :
  In alice (users fresh)
  /\ edge fresh alice alice accepted = false
  /\ outcome (send (Some alice) alice) fresh = Ok tt
  /\ edge (after (send (Some alice) alice) fresh) alice alice requested = true.
Proof.
  assert (In alice (users fresh)) as Hin by (simpl; auto).
  destruct (send_to_self_passes_guard fresh alice Hin) as [_ [_ H]].
  split; [exact Hin|]. split; [reflexivity|]. exact (H eq_refl).
Defined.

(** ** What [accept] touches *)

Lemma whereEdge_newRow a b s rows : whereEdge a b (newRow a b s rows) = true.
Proof. unfold whereEdge. simpl. now rewrite !Z.eqb_refl. Qed.

Lemma filter_acceptedRows u f rows :
  filter (fun r => negb (between u f r)) (acceptedRows u f rows)
  = filter (fun r => negb (between u f r)) rows.
Proof.
  unfold acceptedRows, between.
  destruct (existsb _ (setWhere accepted (whereEdge f u) rows)).
  - rewrite !filter_setWhere; try reflexivity.
    + intros r ->. reflexivity.
    + intros r ->. now rewrite orb_true_r.
  - rewrite filter_app. cbn [filter].
    rewrite (whereEdge_newRow u f), orb_true_r. cbn [negb].
    rewrite app_nil_r.
    apply filter_setWhere; [intros r ->|]; reflexivity.
Qed.

Lemma no_key_no_rows a b rows :
  ~ In (a, b) (map key rows) -> filter (whereEdge a b) rows = [].
Proof.
  induction rows as [|r rows IH]; simpl; [reflexivity|].
  intros H. destruct (whereEdge a b r) eqn:W.
  - apply whereEdge_key in W. elim H. now left.
  - apply IH. intros Hin. apply H. now right.
Qed.

(** Under the key an edge has at most one row. *)
Lemma keyed_one_row a b rows :
  NoDup (map key rows) -> (length (filter (whereEdge a b) rows) <= 1)%nat.
Proof.
  induction rows as [|r rows IH]; simpl; [lia|].
  intros ND. inversion ND as [|? ? Hr ND']; subst.
  destruct (whereEdge a b r) eqn:W; [|now apply IH].
  apply whereEdge_key in W. rewrite W in Hr.
  rewrite (no_key_no_rows _ _ _ Hr). simpl. lia.
Qed.

Lemma keyed_two_rows u f rows :
  NoDup (map key rows) -> (length (filter (between u f) rows) <= 2)%nat.
Proof.
  intros ND.
  pose proof (keyed_one_row f u rows ND) as H1.
  pose proof (keyed_one_row u f rows ND) as H2.
  assert (length (filter (between u f) rows)
          <= length (filter (whereEdge f u) rows)
             + length (filter (whereEdge u f) rows))%nat; [|lia].
  clear. unfold between.
  induction rows as [|r rows IH]; simpl; [lia|].
  destruct (whereEdge f u r), (whereEdge u f r); simpl; lia.
Qed.

(** C8.  For every authenticated caller [u] and input [f], whenever
    [accept(f)] succeeds: the users table is unchanged; every friendships
    row other than those of the edges [(f, u)] and [(u, f)] is unchanged;
    the reverse edge [(u, f)] has status accepted and no other, whatever
    status it had before, and when it was there before it is overwritten in
    place, no row being added; and under the table's key the rows of the
    two edges are at most two. *)
Theorem accept_touches_two_edges (c : Connection) (u f : Z) :
  snd (accept (Some u) f c) = Ok tt ->
  users (db (fst (accept (Some u) f c))) = users (db c)
  /\ filter (fun r => negb (between u f r))
            (friendships (db (fst (accept (Some u) f c))))
     = filter (fun r => negb (between u f r)) (friendships (db c))
  /\ (forall t, edge (db (fst (accept (Some u) f c))) u f t
                = status_eqb accepted t)
  /\ (hasEdge (db c) u f = true ->
      map key (friendships (db (fst (accept (Some u) f c))))
      = map key (friendships (db c)))
  /\ (keyed (db c) ->
      (length (filter (between u f)
                 (friendships (db (fst (accept (Some u) f c))))) <= 2)%nat).
Proof.
  intros Hok. pose proof (accept_allOrNothing c (Some u) f) as H.
  rewrite Hok, accept_reliable in H.
  destruct (edge (db c) f u requested) eqn:Hreq;
    [|apply reliable_inj in H; now destruct H].
  apply reliable_inj in H as [<- _]. simpl.
  split; [reflexivity|]. split; [apply filter_acceptedRows|].
  split; [|split].
  - intros t. unfold edge. simpl.
    now rewrite edgeIn_acceptedRows, !Z.eqb_refl.
  - unfold hasEdge, acceptedRows. intros He.
    now rewrite hasKey_setWhere, He, !key_setWhere.
  - intros K. apply keyed_two_rows.
    exact (keyed_acceptedRows (db c) u f K).
Qed.

Lemma accept_touches_two_edges_witness :
  edge secondThoughts alice bob declined = true
  /\ snd (accept (Some alice) bob (reliable secondThoughts)) = Ok tt
  /\ edge (after (accept (Some alice) bob) secondThoughts) alice bob accepted
     = true
  /\ edge (after (accept (Some alice) bob) secondThoughts) alice bob declined
     = false
  /\ map key (friendships (after (accept (Some alice) bob) secondThoughts))
     = map key (friendships secondThoughts).
Proof.
  destruct (accept_touches_two_edges (reliable secondThoughts) alice bob
              eq_refl) as [_ [_ [He [Hk _]]]].
  split; [reflexivity|]. split; [reflexivity|].
  split; [exact (He accepted)|]. split; [exact (He declined)|].
  exact (Hk eq_refl).
Defined.

(** C9.  Each of the three procedures checks its precondition in a guard
    before any statement that writes: whenever [send], [accept] or [decline]
    is rejected with BAD_REQUEST, by any caller, with any input, over any
    connection, the friendships and users tables are exactly as they were
    before the call. *)
Theorem bad_request_changes_nothing (p : Procedure) (c : Connection)
    (s : option Z) (f : Z) :
  snd (call p s f c) = Err BAD_REQUEST ->
  db (fst (call p s f c)) = db c.
Proof.
  intros He. pose proof (call_allOrNothing p c s f) as H.
  rewrite He in H. exact (proj1 H).
Qed.

Lemma bad_request_changes_nothing_witness :
  snd (call Accept (Some bob) alice (reliable fresh)) = Err BAD_REQUEST
  /\ db (fst (call Accept (Some bob) alice (reliable fresh))) = fresh.
Proof.
  split; [reflexivity|].
  exact (bad_request_changes_nothing Accept (reliable fresh) (Some bob) alice
           eq_refl).
Defined.


(** * Further properties of the router *)

(** ** What one call does to the tables *)

(** What a successful call has found and done. *)
Lemma call_success (p : Procedure) (c : Connection) (u f : Z) :
  snd (call p (Some u) f c) = Ok tt ->
  match p with
  | Send =>
      In f (users (db c)) /\
      ((openEdge (db c) u f = true /\
        db (fst (call p (Some u) f c))
        = withRows (db c)
            (setWhere requested (whereEdge u f) (friendships (db c))))
       \/ (hasEdge (db c) u f = false /\
           db (fst (call p (Some u) f c))
           = withRows (db c)
               (friendships (db c)
                ++ [newRow u f requested (friendships (db c))])))
  | Accept =>
      edge (db c) f u requested = true /\
      db (fst (call p (Some u) f c))
      = withRows (db c) (acceptedRows u f (friendships (db c)))
  | Decline =>
      edge (db c) f u requested = true /\
      db (fst (call p (Some u) f c))
      = withRows (db c)
          (setWhere declined (whereEdge f u) (friendships (db c)))
  end.
Proof.
  intros Hok. pose proof (call_allOrNothing p c (Some u) f) as H.
  rewrite Hok in H. destruct p; simpl in *.
  - rewrite send_reliable in H. fold (openEdge (db c) u f) in H.
    destruct (existsb _ (users (db c))) eqn:Hu;
      [|apply reliable_inj in H; now destruct H].
    split; [now apply In_users|].
    destruct (openEdge (db c) u f).
    + left. apply reliable_inj in H as [<- _]. auto.
    + destruct (hasEdge (db c) u f);
        [apply reliable_inj in H; now destruct H|].
      right. apply reliable_inj in H as [<- _]. auto.
  - rewrite accept_reliable in H. destruct (edge (db c) f u requested);
      [|apply reliable_inj in H; now destruct H].
    apply reliable_inj in H as [<- _]. auto.
  - rewrite decline_reliable in H. destruct (edge (db c) f u requested);
      [|apply reliable_inj in H; now destruct H].
    apply reliable_inj in H as [<- _]. auto.
Qed.

(** Whatever the caller, the input and the failures on the connection, a
    call either leaves the tables as they were, or it succeeds, for a
    session [u], with the one change its handler makes. *)
Lemma call_effect (p : Procedure) (c : Connection) (s : option Z) (f : Z) :
  db (fst (call p s f c)) = db c
  \/ exists u, s = Some u /\ snd (call p s f c) = Ok tt /\
       match p with
       | Send =>
           In f (users (db c)) /\
           ((openEdge (db c) u f = true /\
             db (fst (call p s f c))
             = withRows (db c)
                 (setWhere requested (whereEdge u f) (friendships (db c))))
            \/ (hasEdge (db c) u f = false /\
                db (fst (call p s f c))
                = withRows (db c)
                    (friendships (db c)
                     ++ [newRow u f requested (friendships (db c))])))
       | Accept =>
           edge (db c) f u requested = true /\
           db (fst (call p s f c))
           = withRows (db c) (acceptedRows u f (friendships (db c)))
       | Decline =>
           edge (db c) f u requested = true /\
           db (fst (call p s f c))
           = withRows (db c)
               (setWhere declined (whereEdge f u) (friendships (db c)))
       end.
Proof.
  pose proof (call_allOrNothing p c s f) as H.
  destruct (snd (call p s f c)) as [[]|e] eqn:E; [|left; exact (proj1 H)].
  destruct s as [u|]; [|destruct p; discriminate H].
  right. exists u. split; [reflexivity|]. split; [reflexivity|].
  exact (call_success p c u f E).
Qed.

Lemma ident_setWhere s p rows :
  map (fun r => (id r, key r)) (setWhere s p rows)
  = map (fun r => (id r, key r)) rows.
Proof.
  unfold setWhere. rewrite map_map. apply map_ext.
  intros r. destruct (p r); reflexivity.
Qed.

(** X1.  [send] and [decline] write with their last statement only, and
    [accept] writes inside its transaction: a call of any procedure that is
    rejected, with whatever error and whichever statement failed, leaves the
    users and friendships tables as they were. *)
Theorem rejected_call_changes_nothing (p : Procedure) (c : Connection)
    (s : option Z) (f : Z) (e : Error) :
  snd (call p s f c) = Err e -> db (fst (call p s f c)) = db c.
Proof.
  intros He. pose proof (call_allOrNothing p c s f) as H.
  rewrite He in H. exact (proj1 H).
Qed.

Lemma rejected_call_changes_nothing_witness :
  snd (call Send (Some alice) bob (failsAt 2 turnedDown))
  = Err (DATA_ACCESS Unavailable)
  /\ snd (call Send (Some alice) bob (reliable friends))
     = Err (DATA_ACCESS UniqueViolation)
  /\ db (fst (call Send (Some alice) bob (failsAt 2 turnedDown))) = turnedDown
  /\ db (fst (call Send (Some alice) bob (reliable friends))) = friends.
Proof.
  split; [reflexivity|]. split; [reflexivity|]. split.
  - exact (rejected_call_changes_nothing Send (failsAt 2 turnedDown)
             (Some alice) bob _ eq_refl).
  - exact (rejected_call_changes_nothing Send (reliable friends)
             (Some alice) bob _ eq_refl).
Defined.

(** X2.  No call, successful or not, changes the users table, removes a
    friendships row, or changes the id or the pair of a row: the rows keep
    their order, and at most one row is added, at the end, by [send] or
    [accept], for the pair (caller, [f]) that had no row. *)
Theorem call_keeps_rows (p : Procedure) (c : Connection) (s : option Z)
    (f : Z) :
  users (db (fst (call p s f c))) = users (db c)
  /\ (map (fun r => (id r, key r)) (friendships (db (fst (call p s f c))))
      = map (fun r => (id r, key r)) (friendships (db c))
      \/ exists u i,
           s = Some u /\ p <> Decline /\ hasEdge (db c) u f = false /\
           map (fun r => (id r, key r))
               (friendships (db (fst (call p s f c))))
           = map (fun r => (id r, key r)) (friendships (db c))
             ++ [(i, (u, f))]).
Proof.
  destruct (call_effect p c s f) as [->|[u [-> [_ H]]]]; [auto|].
  destruct p.
  - destruct H as [_ [[_ ->]|[Hno ->]]]; simpl.
    + split; [reflexivity|]. left. apply ident_setWhere.
    + split; [reflexivity|]. right. exists u, (nextId (friendships (db c))).
      split; [reflexivity|]. split; [discriminate|]. split; [exact Hno|].
      now rewrite map_app.
  - destruct H as [_ ->]. simpl. split; [reflexivity|].
    unfold acceptedRows, hasEdge.
    rewrite hasKey_setWhere.
    destruct (existsb (whereEdge u f) (friendships (db c))) eqn:E.
    + left. now rewrite !ident_setWhere.
    + right. eexists u, _.
      split; [reflexivity|]. split; [discriminate|]. split; [exact E|].
      rewrite map_app, ident_setWhere. reflexivity.
  - destruct H as [_ ->]. simpl. split; [reflexivity|]. left.
    apply ident_setWhere.
Qed.

(** ** The life of an edge *)

Lemma call_keyed (p : Procedure) (c : Connection) (s : option Z) (f : Z) :
  keyed (db c) -> keyed (db (fst (call p s f c))).
Proof.
  intros K. destruct (call_effect p c s f) as [->|[u [_ [_ H]]]]; [exact K|].
  destruct p.
  - destruct H as [_ [[_ ->]|[Hno ->]]];
      [now apply keyed_setWhere | now apply keyed_insert].
  - destruct H as [_ ->]. now apply keyed_acceptedRows.
  - destruct H as [_ ->]. now apply keyed_setWhere.
Qed.

Lemma call_keeps_accepted (p : Procedure) (c : Connection) (s : option Z)
    (f a b : Z) :
  keyed (db c) -> edge (db c) a b accepted = true ->
  edge (db (fst (call p s f c))) a b accepted = true.
Proof.
  intros K Ha.
  destruct (call_effect p c s f) as [->|[u [_ [_ H]]]]; [exact Ha|].
  destruct p.
  - destruct H as [_ [[Ho ->]|[Hno ->]]]; unfold edge; simpl.
    + rewrite edgeIn_setWhere.
      pose proof (keyed_open_not_accepted _ _ _ K Ho) as Na.
      destruct ((a =? u) && (b =? f)) eqn:C; [|exact Ha].
      apply andb_true_iff in C. rewrite !Z.eqb_eq in C.
      destruct C; subst. congruence.
    + rewrite edgeIn_insert. unfold edge in Ha. now rewrite Ha.
  - destruct H as [Hreq ->]. unfold edge in *. simpl.
    rewrite edgeIn_acceptedRows.
    destruct ((a =? u) && (b =? f)); [reflexivity|].
    destruct ((a =? f) && (b =? u)); [|exact Ha].
    apply edgeIn_hasKey in Hreq. now rewrite Hreq.
  - destruct H as [Hreq ->]. unfold edge in *. simpl.
    rewrite edgeIn_setWhere.
    destruct ((a =? f) && (b =? u)) eqn:C; [|exact Ha].
    apply andb_true_iff in C. rewrite !Z.eqb_eq in C. destruct C; subst.
    pose proof (edgeIn_unique _ _ _ _ _ K Ha Hreq). discriminate.
Qed.

(** X3.  There is no way back from accepted: under the table's key, an
    edge that is accepted stays accepted in every table that calls of
    [send], [accept] and [decline] lead to, whoever calls, with whatever
    input, whether the calls succeed or fail. *)
Theorem accepted_is_final (d0 d : Database) (a b : Z) :
  keyed d0 -> edge d0 a b accepted = true -> reachable d0 d ->
  edge d a b accepted = true.
Proof.
  intros K Ha R.
  assert (keyed d /\ edge d a b accepted = true) as [_ H]; [|exact H].
  induction R as [|d p s f fl R [IHk IHa]]; [auto|]. split.
  - now apply call_keyed.
  - now apply call_keeps_accepted.
Qed.

Lemma friends_keyed : keyed friends.
Proof.
  exact (call_keyed Accept _ (Some bob) alice
           (call_keyed Send (reliable fresh) (Some alice) bob fresh_keyed)).
Defined.

Lemma accepted_is_final_witness :
  keyed friends
  /\ edge friends alice bob accepted = true
  /\ reachable friends (after (decline (Some alice) bob)
                          (after (send (Some alice) bob) friends))
  /\ edge (after (decline (Some alice) bob)
             (after (send (Some alice) bob) friends)) alice bob accepted
     = true.
Proof.
  assert (reachable friends (after (decline (Some alice) bob)
                               (after (send (Some alice) bob) friends))) as R
    by exact (reach_call friends _ Decline (Some alice) bob []
                (reach_call friends friends Send (Some alice) bob []
                   (reach_start friends))).
  split; [exact friends_keyed|]. split; [reflexivity|]. split; [exact R|].
  exact (accepted_is_final friends _ alice bob friends_keyed eq_refl R).
Defined.

(** X4.  An edge becomes requested through its own sender only: if a call
    leaves the edge [(a, b)] requested where it was not, the call is a
    successful [send(b)] by the session of [a], and [b] is in the users
    table.  No call by anybody else and neither [accept] nor [decline] makes
    a request. *)
Theorem requested_only_by_send (p : Procedure) (c : Connection)
    (s : option Z) (f a b : Z) :
  edge (db c) a b requested = false ->
  edge (db (fst (call p s f c))) a b requested = true ->
  p = Send /\ s = Some a /\ f = b /\ In b (users (db c))
  /\ snd (call p s f c) = Ok tt.
Proof.
  intros H0 H1.
  destruct (call_effect p c s f) as [E|[u [-> [Hok H]]]];
    [rewrite E in H1; congruence|].
  destruct p.
  - destruct H as [Hin [[_ E]|[_ E]]]; rewrite E in H1; unfold edge in *;
      simpl in H1.
    + rewrite edgeIn_setWhere in H1.
      destruct ((a =? u) && (b =? f)) eqn:C; [|congruence].
      same_pair C. auto.
    + rewrite edgeIn_insert, H0 in H1. simpl in H1.
      apply andb_true_iff in H1 as [C _]. same_pair C. auto.
  - destruct H as [_ E]. rewrite E in H1. unfold edge in *. simpl in H1.
    rewrite edgeIn_acceptedRows in H1. simpl in H1.
    rewrite andb_false_r in H1.
    destruct ((a =? u) && (b =? f)), ((a =? f) && (b =? u)); congruence.
  - destruct H as [_ E]. rewrite E in H1. unfold edge in *. simpl in H1.
    rewrite edgeIn_setWhere in H1. simpl in H1. rewrite andb_false_r in H1.
    destruct ((a =? f) && (b =? u)); congruence.
Qed.

Lemma requested_only_by_send_witness :
  edge fresh alice bob requested = false
  /\ edge (after (send (Some alice) bob) fresh) alice bob requested = true
  /\ In bob (users fresh).
Proof.
  destruct (requested_only_by_send Send (reliable fresh) (Some alice) bob
              alice bob eq_refl eq_refl) as [_ [_ [_ [H _]]]].
  split; [reflexivity|]. split; [reflexivity | exact H].
Defined.

(** X5.  An edge becomes declined through its receiver only: if a call
    leaves the edge [(a, b)] declined where it was not, the call is a
    successful [decline(a)] by the session of [b], and the edge was
    requested. *)
Theorem declined_only_by_decline (p : Procedure) (c : Connection)
    (s : option Z) (f a b : Z) :
  edge (db c) a b declined = false ->
  edge (db (fst (call p s f c))) a b declined = true ->
  p = Decline /\ s = Some b /\ f = a
  /\ edge (db c) a b requested = true
  /\ snd (call p s f c) = Ok tt.
Proof.
  intros H0 H1.
  destruct (call_effect p c s f) as [E|[u [-> [Hok H]]]];
    [rewrite E in H1; congruence|].
  destruct p.
  - destruct H as [Hin [[_ E]|[_ E]]]; rewrite E in H1; unfold edge in *;
      simpl in H1.
    + rewrite edgeIn_setWhere in H1. simpl in H1. rewrite andb_false_r in H1.
      destruct ((a =? u) && (b =? f)); congruence.
    + rewrite edgeIn_insert, H0 in H1. simpl in H1.
      now rewrite andb_false_r in H1.
  - destruct H as [_ E]. rewrite E in H1. unfold edge in *. simpl in H1.
    rewrite edgeIn_acceptedRows in H1. simpl in H1.
    rewrite andb_false_r in H1.
    destruct ((a =? u) && (b =? f)), ((a =? f) && (b =? u)); congruence.
  - destruct H as [Hreq E]. rewrite E in H1. unfold edge in *. simpl in H1.
    rewrite edgeIn_setWhere in H1.
    destruct ((a =? f) && (b =? u)) eqn:C; [|congruence].
    same_pair C. auto.
Qed.

Lemma declined_only_by_decline_witness :
  edge (after (send (Some alice) bob) fresh) alice bob declined = false
  /\ edge turnedDown alice bob declined = true
  /\ edge (after (send (Some alice) bob) fresh) alice bob requested = true.
Proof.
  destruct (declined_only_by_decline Decline
              (reliable (after (send (Some alice) bob) fresh)) (Some bob)
              alice alice bob eq_refl eq_refl) as [_ [_ [_ [H _]]]].
  split; [reflexivity|]. split; [reflexivity | exact H].
Defined.

(** X6.  An edge becomes accepted through [accept] only, and only between
    the two users of an answered request: if a call leaves the edge
    [(a, b)] accepted where it was not, the call is a successful [accept],
    either by the session of [b] answering the requested edge [(a, b)], or
    by the session of [a] answering the requested edge [(b, a)]. *)
Theorem accepted_only_by_accept (p : Procedure) (c : Connection)
    (s : option Z) (f a b : Z) :
  edge (db c) a b accepted = false ->
  edge (db (fst (call p s f c))) a b accepted = true ->
  p = Accept /\ snd (call p s f c) = Ok tt
  /\ ((s = Some b /\ f = a /\ edge (db c) a b requested = true)
      \/ (s = Some a /\ f = b /\ edge (db c) b a requested = true)).
Proof.
  intros H0 H1.
  destruct (call_effect p c s f) as [E|[u [-> [Hok H]]]];
    [rewrite E in H1; congruence|].
  destruct p.
  - destruct H as [Hin [[_ E]|[_ E]]]; rewrite E in H1; unfold edge in *;
      simpl in H1.
    + rewrite edgeIn_setWhere in H1. simpl in H1. rewrite andb_false_r in H1.
      destruct ((a =? u) && (b =? f)); congruence.
    + rewrite edgeIn_insert, H0 in H1. simpl in H1.
      now rewrite andb_false_r in H1.
  - destruct H as [Hreq E]. rewrite E in H1. unfold edge in *. simpl in H1.
    rewrite edgeIn_acceptedRows in H1.
    split; [reflexivity|]. split; [exact Hok|].
    destruct ((a =? u) && (b =? f)) eqn:C; [same_pair C; auto|].
    destruct ((a =? f) && (b =? u)) eqn:C'; [same_pair C'; auto|].
    congruence.
  - destruct H as [_ E]. rewrite E in H1. unfold edge in *. simpl in H1.
    rewrite edgeIn_setWhere in H1. simpl in H1. rewrite andb_false_r in H1.
    destruct ((a =? f) && (b =? u)); congruence.
Qed.

Lemma accepted_only_by_accept_witness :
  edge (after (send (Some alice) bob) fresh) bob alice accepted = false
  /\ edge friends bob alice accepted = true
  /\ edge (after (send (Some alice) bob) fresh) alice bob requested = true.
Proof.
  destruct (accepted_only_by_accept Accept
              (reliable (after (send (Some alice) bob) fresh)) (Some bob)
              alice bob alice eq_refl eq_refl) as [_ [_ [[_ [_ H]]|[_ [_ H]]]]].
  - split; [reflexivity|]. split; [reflexivity | reflexivity].
  - split; [reflexivity|]. split; [reflexivity | exact H].
Defined.

(** ** Calls one after the other *)

Lemma setWhere_twice s t a b rows :
  setWhere s (whereEdge a b) (setWhere t (whereEdge a b) rows)
  = setWhere s (whereEdge a b) rows.
Proof.
  unfold setWhere. rewrite map_map. apply map_ext. intros r.
  destruct (whereEdge a b r) eqn:W.
  - now rewrite whereEdge_setStatus, W.
  - now rewrite W.
Qed.

Lemma setWhere_none s p rows :
  existsb p rows = false -> setWhere s p rows = rows.
Proof.
  induction rows as [|r rows IH]; simpl; [reflexivity|].
  intros H. apply orb_false_iff in H as [-> H]. now rewrite IH.
Qed.

(** After a successful [send] the edge [(u, f)] is there, requested, and a
    reset to requested changes no row. *)
Lemma sent_rows (c : Connection) (u f : Z) :
  snd (send (Some u) f c) = Ok tt ->
  In f (users (db (fst (send (Some u) f c))))
  /\ hasEdge (db (fst (send (Some u) f c))) u f = true
  /\ (forall t, edge (db (fst (send (Some u) f c))) u f t
                = status_eqb requested t)
  /\ setWhere requested (whereEdge u f)
       (friendships (db (fst (send (Some u) f c))))
     = friendships (db (fst (send (Some u) f c)))
  /\ withRows (db (fst (send (Some u) f c)))
       (friendships (db (fst (send (Some u) f c))))
     = db (fst (send (Some u) f c)).
Proof.
  intros Hok. destruct (call_success Send c u f Hok) as [Hin [[Ho E]|[Hno E]]];
    simpl in E; rewrite E; unfold hasEdge, edge; simpl.
  - assert (existsb (whereEdge u f) (friendships (db c)) = true) as Hk.
    { fold (hasEdge (db c) u f). now rewrite hasEdge_split, Ho. }
    split; [exact Hin|]. split; [now rewrite hasKey_setWhere|].
    split; [|split; [apply setWhere_twice | reflexivity]].
    intros t. now rewrite edgeIn_setWhere, !Z.eqb_refl, Hk.
  - split; [exact Hin|]. unfold hasEdge in Hno.
    split; [|split; [|split; [|reflexivity]]].
    + rewrite existsb_app. simpl.
      now rewrite whereEdge_newRow, orb_true_r.
    + intros t. rewrite edgeIn_insert, !Z.eqb_refl. simpl.
      destruct (edgeIn (friendships (db c)) u f t) eqn:Et; [|reflexivity].
      apply edgeIn_hasKey in Et. congruence.
    + unfold setWhere at 1. rewrite map_app. simpl.
      rewrite whereEdge_newRow.
      change (map _ (friendships (db c)))
        with (setWhere requested (whereEdge u f) (friendships (db c))).
      now rewrite (setWhere_none _ _ _ Hno).
Qed.

(** X7.  A request is answered once: after a successful [accept(f)] or
    [decline(f)] by [u], the edge [(f, u)] is no longer requested, so a
    further [accept(f)] or [decline(f)] by [u] is rejected with
    BAD_REQUEST, until [f] sends again.  A declined request cannot be
    accepted, and an accepted one cannot be declined. *)
Theorem request_is_answered_once (p : Procedure) (c : Connection) (u f : Z) :
  p <> Send ->
  snd (call p (Some u) f c) = Ok tt ->
  edge (db (fst (call p (Some u) f c))) f u requested = false
  /\ outcome (accept (Some u) f) (db (fst (call p (Some u) f c)))
     = Err BAD_REQUEST
  /\ outcome (decline (Some u) f) (db (fst (call p (Some u) f c)))
     = Err BAD_REQUEST.
Proof.
  intros Hp Hok.
  assert (edge (db (fst (call p (Some u) f c))) f u requested = false) as E.
  { pose proof (call_success p c u f Hok) as H.
    destruct p; [now elim Hp | |]; destruct H as [Hreq ->];
      unfold edge; simpl.
    - rewrite edgeIn_acceptedRows, !Z.eqb_refl. simpl.
      rewrite andb_false_r. now destruct ((f =? u) && (u =? f)).
    - rewrite edgeIn_setWhere. simpl. rewrite andb_false_r.
      now rewrite !Z.eqb_refl. }
  split; [exact E|]. unfold outcome.
  now rewrite accept_reliable, decline_reliable, E.
Qed.

Lemma request_is_answered_once_witness :
  snd (call Decline (Some bob) alice
         (reliable (after (send (Some alice) bob) fresh))) = Ok tt
  /\ outcome (accept (Some bob) alice) turnedDown = Err BAD_REQUEST
  /\ outcome (decline (Some bob) alice) turnedDown = Err BAD_REQUEST.
Proof.
  assert (Decline <> Send) as Hp by discriminate.
  destruct (request_is_answered_once Decline
              (reliable (after (send (Some alice) bob) fresh)) bob alice
              Hp eq_refl) as [_ [Ha Hd]].
  split; [reflexivity|]. split; [exact Ha | exact Hd].
Defined.

(** X8.  Sending again changes nothing: after a successful [send(f)] by
    [u], a second [send(f)] by [u] succeeds and leaves the tables exactly
    as the first left them; no second row is made. *)
Theorem send_twice_is_send_once (c : Connection) (u f : Z) :
  snd (send (Some u) f c) = Ok tt ->
  outcome (send (Some u) f) (db (fst (send (Some u) f c))) = Ok tt
  /\ after (send (Some u) f) (db (fst (send (Some u) f c)))
     = db (fst (send (Some u) f c)).
Proof.
  intros Hok.
  destruct (sent_rows c u f Hok) as [Hin [Hk [He [Hfix Hd]]]].
  apply In_users in Hin.
  unfold outcome, after. rewrite send_reliable, Hin.
  fold (openEdge (db (fst (send (Some u) f c))) u f).
  rewrite openEdge_split, (He requested). simpl.
  split; [reflexivity|]. now rewrite Hfix.
Qed.

Lemma send_twice_is_send_once_witness :
  snd (send (Some alice) bob (reliable fresh)) = Ok tt
  /\ friendships
       (after (send (Some alice) bob) (after (send (Some alice) bob) fresh))
     = [mkFriendship 1 alice bob requested].
Proof.
  destruct (send_twice_is_send_once (reliable fresh) alice bob eq_refl)
    as [_ H].
  split; [reflexivity|]. exact (f_equal friendships H).
Defined.

(** X9.  Declining and sending again is a round trip: after a successful
    [send(f)] by [u], a [decline(u)] by [f] followed by a [send(f)] by [u]
    both succeed and bring the tables back exactly to what the first
    [send] left. *)
Theorem decline_then_send_again_restores (c : Connection) (u f : Z) :
  snd (send (Some u) f c) = Ok tt ->
  outcome (decline (Some f) u) (db (fst (send (Some u) f c))) = Ok tt
  /\ outcome (send (Some u) f)
       (after (decline (Some f) u) (db (fst (send (Some u) f c)))) = Ok tt
  /\ after (send (Some u) f)
       (after (decline (Some f) u) (db (fst (send (Some u) f c))))
     = db (fst (send (Some u) f c)).
Proof.
  intros Hok.
  destruct (sent_rows c u f Hok) as [Hin [Hk [He [Hfix Hd]]]].
  apply In_users in Hin.
  unfold outcome, after.
  rewrite decline_reliable, (He requested). simpl.
  split; [reflexivity|].
  rewrite send_reliable. simpl. rewrite Hin.
  match goal with
  | |- context [existsb ?q (setWhere declined ?p ?l)] =>
      change (existsb q (setWhere declined p l))
        with (openEdge (withRows (db (fst (send (Some u) f c)))
                          (setWhere declined p l)) u f)
  end.
  rewrite openEdge_split. unfold edge. simpl.
  rewrite !edgeIn_setWhere, !Z.eqb_refl. unfold hasEdge in Hk. rewrite Hk.
  simpl. split; [reflexivity|].
  now rewrite setWhere_twice, Hfix.
Qed.

Lemma decline_then_send_again_restores_witness :
  snd (send (Some alice) bob (reliable fresh)) = Ok tt
  /\ friendships (after (send (Some alice) bob) turnedDown)
     = friendships (after (send (Some alice) bob) fresh).
Proof.
  destruct (decline_then_send_again_restores (reliable fresh) alice bob
              eq_refl) as [_ [_ H]].
  split; [reflexivity|]. exact (f_equal friendships H).
Defined.

(** X10.  [accept] reads the reverse edge before it inserts it, and
    [decline] inserts nothing: whatever the connection, neither is ever
    rejected by the table's key. *)
Theorem answer_never_rejected_by_key (c : Connection) (s : option Z) (f : Z) :
  snd (accept s f c) <> Err (DATA_ACCESS UniqueViolation)
  /\ snd (decline s f c) <> Err (DATA_ACCESS UniqueViolation).
Proof.
  split; destruct s as [u|]; split_faults c; unfold_run;
    run_exact @find_existsb;
    discriminate.
Qed.

Lemma send_key_rejection (c : Connection) (u f : Z) :
  snd (send (Some u) f c) = Err (DATA_ACCESS UniqueViolation) ->
  existsb (fun i => i =? f) (users (db c)) = true
  /\ openEdge (db c) u f = false
  /\ hasEdge (db c) u f = true.
Proof.
  unfold openEdge, hasEdge. split_faults c; unfold_run;
    run_exact @find_existsb;
    try discriminate; intros _; auto.
Qed.

(** X11.  [send] is rejected by the table's key in one case only: whatever
    the connection, if [send(f)] fails with the key's error, the caller has
    a session [u], [f] is a user, and the edge [(u, f)] is there as
    accepted and in no other status.  A first request, and a request after
    a decline, are never rejected by the key. *)
Theorem send_rejected_by_key_only_when_accepted (c : Connection)
    (s : option Z) (f : Z) :
  snd (send s f c) = Err (DATA_ACCESS UniqueViolation) ->
  exists u, s = Some u /\ In f (users (db c))
            /\ edge (db c) u f accepted = true
            /\ openEdge (db c) u f = false.
Proof.
  destruct s as [u|]; [|destruct c; discriminate].
  intros H. apply send_key_rejection in H as [Hu [Ho Hk]].
  exists u. split; [reflexivity|]. split; [now apply In_users|].
  rewrite hasEdge_split, Ho in Hk. auto.
Qed.

Lemma send_rejected_by_key_only_when_accepted_witness :
  snd (send (Some alice) bob (reliable friends))
  = Err (DATA_ACCESS UniqueViolation)
  /\ exists u, Some alice = Some u /\ In bob (users friends)
               /\ edge friends u bob accepted = true
               /\ openEdge friends u bob = false.
Proof.
  split; [reflexivity|].
  exact (send_rejected_by_key_only_when_accepted (reliable friends)
           (Some alice) bob eq_refl).
Defined.

(** X12.  A call touches only the edges between its caller and its
    input: whatever the connection and whether it succeeds, [send(f)] by
    [u] leaves every row that is not the edge [(u, f)] as it was,
    [decline(f)] by [u] every row that is not the edge [(f, u)], and
    [accept(f)] by [u] every row that is neither. *)
Theorem call_touches_own_edges (p : Procedure) (c : Connection) (u f : Z) :
  match p with
  | Send => others u f (db (fst (call p (Some u) f c))) = others u f (db c)
  | Decline => others f u (db (fst (call p (Some u) f c))) = others f u (db c)
  | Accept =>
      filter (fun r => negb (between u f r))
             (friendships (db (fst (call p (Some u) f c))))
      = filter (fun r => negb (between u f r)) (friendships (db c))
  end.
Proof.
  destruct (call_effect p c (Some u) f) as [E|[u' [Hu [_ H]]]].
  - rewrite E. now destruct p.
  - inversion Hu; subst u'. destruct p.
    + destruct H as [_ [[_ ->]|[_ ->]]]; unfold others; simpl.
      * apply others_setWhere.
      * rewrite filter_app. simpl. rewrite whereEdge_newRow. simpl.
        apply app_nil_r.
    + destruct H as [_ ->]. simpl. apply filter_acceptedRows.
    + destruct H as [_ ->]. unfold others. simpl. apply others_setWhere.
Qed.

(** ** The guards on their own *)


(** X14.  The handshake: when [f] is a user and the edge [(u, f)] is not
    accepted, on reliable connections [send(f)] by [u] followed by
    [accept(u)] by [f] both succeed and leave the two edges [(u, f)] and
    [(f, u)] accepted, whatever rows the two had before. *)
Theorem send_then_accept_makes_friends (d : Database) (u f : Z) :
  In f (users d) -> edge d u f accepted = false ->
  outcome (send (Some u) f) d = Ok tt
  /\ outcome (accept (Some f) u) (after (send (Some u) f) d) = Ok tt
  /\ edge (after (accept (Some f) u) (after (send (Some u) f) d)) u f accepted
     = true
  /\ edge (after (accept (Some f) u) (after (send (Some u) f) d)) f u accepted
     = true.
Proof.
  intros Hin Hna.
  assert (outcome (send (Some u) f) d = Ok tt) as Hok.
  { apply In_users in Hin. unfold outcome.
    rewrite send_reliable, Hin, hasEdge_split, Hna.
    fold (openEdge d u f). now destruct (openEdge d u f). }
  split; [exact Hok|].
  destruct (sent_rows (reliable d) u f Hok) as [_ [_ [He _]]].
  fold (after (send (Some u) f) d) in He.
  pose proof (He requested) as Hreq. simpl in Hreq.
  remember (after (send (Some u) f) d) as d1 eqn:Ed. clear Ed He Hok.
  unfold outcome, after. rewrite accept_reliable, Hreq.
  split; [reflexivity|]. unfold edge. simpl.
  rewrite !edgeIn_acceptedRows, !Z.eqb_refl. simpl.
  apply edgeIn_hasKey in Hreq. rewrite Hreq.
  now destruct ((u =? f) && (f =? u)).
Qed.

Lemma send_then_accept_makes_friends_witness :
  In bob (users turnedDown)
  /\ edge turnedDown alice bob accepted = false
  /\ edge (after (accept (Some bob) alice)
             (after (send (Some alice) bob) turnedDown)) alice bob accepted
     = true
  /\ edge (after (accept (Some bob) alice)
             (after (send (Some alice) bob) turnedDown)) bob alice accepted
     = true.
Proof.
  assert (In bob (users turnedDown)) as Hin by (simpl; auto).
  destruct (send_then_accept_makes_friends turnedDown alice bob Hin eq_refl)
    as [_ [_ [H1 H2]]].
  split; [exact Hin|]. split; [reflexivity|]. split; [exact H1 | exact H2].
Defined.
